(** * metrics-app/app.py: a synthetic metrics generator

    The program creates three metric objects (two counters and a gauge),
    starts an HTTP exposition endpoint on port 8080, prints a confirmation
    line and then loops forever: each iteration increments both counters,
    overwrites the gauge with [random.uniform(20, 35)] and sleeps 2 seconds.

    The embedding follows the source statement by statement.  Python floats
    are IEEE 754 binary64 values, modelled with the standard library's
    [SpecFloat] (precision 53, maximal exponent 1024).  Effects (metric
    updates, random draws, sleeping, printing, listening) are threaded
    through a small state monad over a [World]; the unbounded [while True]
    loop is run with fuel. *)

From Stdlib Require Import ZArith NArith List String Bool Lia PeanoNat.
From Stdlib Require Import Floats.SpecFloat.
Import ListNotations.

Local Open Scope string_scope.
Local Open Scope list_scope.
Local Open Scope Z_scope.

(** ** Python floats *)

Module Binary64.

Definition prec : Z := 53.
Definition emax : Z := 1024.

Definition float : Type := spec_float.

(** [float(n)] for a Python integer [n]. *)
Definition of_int (n : Z) : float := binary_normalize prec emax n 0 false.

Definition add : float -> float -> float := SFadd prec emax.
Definition mul : float -> float -> float := SFmul prec emax.
Definition leb : float -> float -> bool := SFleb.
Definition ltb : float -> float -> bool := SFltb.

Definition zero : float := S754_zero false.

End Binary64.

Import Binary64.

(** ** The [random] module

    [random.random()] returns a multiple of 2^-53 in [0.0, 1.0): the
    generator supplies 53 random bits [k] and the result is [k * 2^-53].
    [random.uniform(a, b)] is [a + (b - a) * self.random()]; with integer
    arguments the difference is an integer subtraction, the product and the
    sum are float operations. *)

Definition random_of_bits (k : Z) : float :=
  binary_normalize prec emax (k mod 2 ^ 53) (-53) false.

Definition uniform (a b : Z) (u : float) : float :=
  add (of_int a) (mul (of_int (b - a)) u).

(** ** Metric objects *)

(** Modelled from the spec: the classes [Counter] and [Gauge] of the client
    library are not part of the repository.  A counter holds a non-negative
    integer that starts at 0 and is incremented by 1; a gauge holds a number
    that starts at 0 and is overwritten by [set].  Each carries the name and
    the description given at creation. *)
Record Counter : Type := mkCounter
  { c_name : string; c_documentation : string; c_value : N }.

(** Modelled from the spec: the class [Gauge] of the client library; a
    number that can be set to any value, with its name and description. *)
Record Gauge : Type := mkGauge
  { g_name : string; g_documentation : string; g_value : float }.

(** Modelled from the spec: the constructor [Counter(name, documentation)]
    of the client library; a counter starts at 0. *)
Definition new_Counter (name documentation : string) : Counter :=
  mkCounter name documentation 0%N.

(** Modelled from the spec: the constructor [Gauge(name, documentation)] of
    the client library; a gauge starts at its default, 0. *)
Definition new_Gauge (name documentation : string) : Gauge :=
  mkGauge name documentation zero.

(** Modelled from the spec: the method [Counter.inc()] of the client
    library, called without an amount; it adds exactly 1. *)
Definition inc (c : Counter) : Counter :=
  mkCounter (c_name c) (c_documentation c) (c_value c + 1)%N.

(** Modelled from the spec: the method [Gauge.set(value)] of the client
    library; it overwrites the value. *)
Definition set (g : Gauge) (v : float) : Gauge :=
  mkGauge (g_name g) (g_documentation g) v.

(** The module-level names of app.py (lines 5 to 7). *)
Inductive CounterVar : Type := REQUEST_COUNT | RAM_TEST_METRIC_COUNT.
Inductive GaugeVar : Type := TEMPERATURE.

Definition CounterVar_eqb (x y : CounterVar) : bool :=
  match x, y with
  | REQUEST_COUNT, REQUEST_COUNT => true
  | RAM_TEST_METRIC_COUNT, RAM_TEST_METRIC_COUNT => true
  | _, _ => false
  end.

(** The objects the names are bound to.  The updater loop and the
    exposition endpoint reach the same objects through this store. *)
Record Registry : Type := mkRegistry
  { counters : CounterVar -> Counter; gauges : GaugeVar -> Gauge }.

Definition module_globals : Registry :=
  mkRegistry
    (fun c => match c with
              | REQUEST_COUNT =>
                  new_Counter "http_requests_total" "Total HTTP requests served"
              | RAM_TEST_METRIC_COUNT =>
                  new_Counter "ram_test_metric_count" "Ram's sample custom metric"
              end)
    (fun g => match g with
              | TEMPERATURE =>
                  new_Gauge "room_temperature_celsius"
                            "Simulated room temperature in Celsius"
              end).

Definition update_counter (c : CounterVar) (f : Counter -> Counter)
  (r : Registry) : Registry :=
  mkRegistry (fun c' => if CounterVar_eqb c c' then f (counters r c') else counters r c')
             (gauges r).

Definition update_gauge (g : GaugeVar) (f : Gauge -> Gauge)
  (r : Registry) : Registry :=
  mkRegistry (counters r)
             (fun g' => match g, g' with TEMPERATURE, TEMPERATURE => f (gauges r g') end).

Definition counter_value (r : Registry) (c : CounterVar) : N := c_value (counters r c).
Definition gauge_value (r : Registry) (g : GaugeVar) : float := g_value (gauges r g).

(** Registration order: the order of creation in the source. *)
Definition REGISTRY : list (CounterVar + GaugeVar) :=
  [inl REQUEST_COUNT; inr TEMPERATURE; inl RAM_TEST_METRIC_COUNT].

(** ** Exposition *)

Inductive Value : Type :=
| Count (n : N)
| Reading (v : float).

Inductive Kind : Type := KCounter | KGauge.

Inductive Line : Type :=
| Help (name documentation : string)
| TypeOf (name : string) (kind : Kind)
| Sample (name : string) (value : Value).

(** Modelled from the spec: the serializer of the client library is not part
    of the repository.  For each metric, in registration order, it writes a
    help comment line, a type comment line and one data line
    [metric_name value]; there are no labels. *)
Definition expose_metric (r : Registry) (m : CounterVar + GaugeVar) : list Line :=
  match m with
  | inl c =>
      let o := counters r c in
      [Help (c_name o) (c_documentation o); TypeOf (c_name o) KCounter;
       Sample (c_name o) (Count (c_value o))]
  | inr g =>
      let o := gauges r g in
      [Help (g_name o) (g_documentation o); TypeOf (g_name o) KGauge;
       Sample (g_name o) (Reading (g_value o))]
  end.

(** Modelled from the spec: the payload of the client library for the whole
    registry, the metrics one after the other. *)
Definition generate_latest (r : Registry) : list Line :=
  flat_map (expose_metric r) REGISTRY.

(** Parsing a payload keeps the data lines and drops the comment lines. *)
Fixpoint data_lines (payload : list Line) : list (string * Value) :=
  match payload with
  | [] => []
  | Sample name value :: rest => (name, value) :: data_lines rest
  | _ :: rest => data_lines rest
  end.

(** ** Effects *)

Inductive Event : Type :=
| EvListen (port : Z)
| EvPrint (line : string)
| EvInc (c : CounterVar)
| EvSet (g : GaugeVar) (v : float)
| EvSleep (seconds : Z).

(** [entropy i] is the 53-bit integer behind the [i]-th call of
    [random.random()]; [drawn] counts the calls made so far; [trace] lists
    the effects performed, oldest first. *)
Record World : Type := mkWorld
  { registry : Registry;
    entropy : nat -> Z;
    drawn : nat;
    trace : list Event }.

Definition M (A : Type) : Type := World -> A * World.

Definition ret {A : Type} (a : A) : M A := fun w => (a, w).

Definition bind {A B : Type} (m : M A) (k : A -> M B) : M B :=
  fun w => let (a, w') := m w in k a w'.

Notation "x <- m ;; k" := (bind m (fun x => k))
  (at level 61, m at next level, right associativity).
Notation "m ;; k" := (bind m (fun _ => k))
  (at level 61, right associativity).

Definition exec {A : Type} (m : M A) (w : World) : World := snd (m w).

Definition emit (e : Event) : M unit :=
  fun w => (tt, mkWorld (registry w) (entropy w) (drawn w) (trace w ++ [e])).

Definition modify_registry (f : Registry -> Registry) : M unit :=
  fun w => (tt, mkWorld (f (registry w)) (entropy w) (drawn w) (trace w)).

(** [c.inc()] *)
Definition Counter_inc (c : CounterVar) : M unit :=
  modify_registry (update_counter c inc) ;; emit (EvInc c).

(** [g.set(v)] *)
Definition Gauge_set (g : GaugeVar) (v : float) : M unit :=
  modify_registry (update_gauge g (fun o => set o v)) ;; emit (EvSet g v).

(** [random.random()] *)
Definition random_random : M float :=
  fun w => (random_of_bits (entropy w (drawn w)),
            mkWorld (registry w) (entropy w) (S (drawn w)) (trace w)).

(** [random.uniform(a, b)] *)
Definition random_uniform (a b : Z) : M float :=
  u <- random_random ;; ret (uniform a b u).

Definition time_sleep (seconds : Z) : M unit := emit (EvSleep seconds).
Definition start_http_server (port : Z) : M unit := emit (EvListen port).
Definition print (line : string) : M unit := emit (EvPrint line).

(** ** generate_metrics *)

(** One iteration of the loop, lines 11 to 14. *)
Definition loop_body : M unit :=
  Counter_inc REQUEST_COUNT ;;
  Counter_inc RAM_TEST_METRIC_COUNT ;;
  (v <- random_uniform 20 35 ;; Gauge_set TEMPERATURE v) ;;
  time_sleep 2.

(** A call either returns or is still running when the fuel is spent. *)
Inductive Outcome : Type :=
| Returned (w : World)
| Running (w : World).

Definition state_of (o : Outcome) : World :=
  match o with Returned w => w | Running w => w end.

(** [while cond: body], one unit of fuel per iteration. *)
Fixpoint while (cond : M bool) (body : M unit) (fuel : nat) (w : World) : Outcome :=
  match fuel with
  | O => Running w
  | S fuel' =>
      let (b, w1) := cond w in
      if b then while cond body fuel' (exec body w1) else Returned w1
  end.

Definition generate_metrics : nat -> World -> Outcome :=
  while (ret true) loop_body.

(** The state in which the loop stands after [n] completed iterations. *)
Definition after_ticks (n : nat) (w : World) : World :=
  state_of (generate_metrics n w).

(** ** The main block, lines 17 to 19 *)

Definition startup : M unit :=
  start_http_server 8080 ;;
  print "Serving metrics on :8080/metrics".

Definition main (fuel : nat) (w : World) : Outcome :=
  generate_metrics fuel (exec startup w).

(** The process starts with the freshly created metric objects, no draw made
    and no effect performed. *)
Definition initial_world (e : nat -> Z) : World :=
  mkWorld module_globals e O [].

(** ** The updater and the endpoint running side by side

    The updater executes one statement of the loop at a time; a request to
    the endpoint can be served between any two of them. *)

Inductive Pc : Type := Line11 | Line12 | Line13 | Line14.

Definition updater_step (pc : Pc) : M Pc :=
  match pc with
  | Line11 => Counter_inc REQUEST_COUNT ;; ret Line12
  | Line12 => Counter_inc RAM_TEST_METRIC_COUNT ;; ret Line13
  | Line13 => (v <- random_uniform 20 35 ;; Gauge_set TEMPERATURE v) ;; ret Line14
  | Line14 => time_sleep 2 ;; ret Line11
  end.

Inductive Action : Type := Update | Scrape.

Record System : Type := mkSystem { pc : Pc; world : World }.

(** Modelled from the spec: the request handler of the client library's
    HTTP server.  A request reads the registry as it is when the request is
    served and answers with the payload; it changes nothing. *)
Definition handle_request (s : System) : list Line :=
  generate_latest (registry (world s)).

Definition step (a : Action) (s : System) : System * list (list Line) :=
  match a with
  | Update =>
      let (pc', w') := updater_step (pc s) (world s) in (mkSystem pc' w', [])
  | Scrape => (s, [handle_request s])
  end.

(** Runs a schedule and collects the responses, oldest first. *)
Fixpoint run (schedule : list Action) (s : System) : System * list (list Line) :=
  match schedule with
  | [] => (s, [])
  | a :: rest =>
      let (s1, out1) := step a s in
      let (s2, out2) := run rest s1 in
      (s2, out1 ++ out2)
  end.

Definition is_scrape (a : Action) : bool :=
  match a with Scrape => true | Update => false end.

(** ** Ranges of the gauge *)

Definition in_half_open_range (v : float) : Prop :=
  leb (of_int 20) v = true /\ ltb v (of_int 35) = true.

Definition in_closed_range (v : float) : Prop :=
  leb (of_int 20) v = true /\ leb v (of_int 35) = true.

Definition is_loop_event (e : Event) : bool :=
  match e with
  | EvInc _ | EvSet _ _ | EvSleep _ => true
  | EvListen _ | EvPrint _ => false
  end.

(** The lines written to standard output, oldest first. *)
Fixpoint stdout (t : list Event) : list string :=
  match t with
  | [] => []
  | EvPrint line :: rest => line :: stdout rest
  | _ :: rest => stdout rest
  end.

(** The effects of one iteration started in [w]. *)
Definition tick_events (w : World) : list Event :=
  [EvInc REQUEST_COUNT; EvInc RAM_TEST_METRIC_COUNT;
   EvSet TEMPERATURE (uniform 20 35 (random_of_bits (entropy w (drawn w))));
   EvSleep 2].

(** Every iteration ends with its sleep, so the sleeps in the trace count
    the completed iterations. *)
Fixpoint completed_iterations (t : list Event) : nat :=
  match t with
  | [] => O
  | EvSleep _ :: rest => S (completed_iterations rest)
  | _ :: rest => completed_iterations rest
  end.

(** ** Notions used by the proofs about rounding *)

(** [b] is [a] shifted right by [k] digits; when the digits shifted out are
    all zero and [a] carries no round or sticky bit, neither does [b]. *)
Definition shr_inv (k : Z) (a b : shr_record) : Prop :=
  shr_m b = shr_m a / 2 ^ k /\
  (shr_m a mod 2 ^ k = 0 -> shr_r a = false -> shr_s a = false ->
   shr_r b = false /\ shr_s b = false).

(** [x] is a positive normal binary64 number with [lo <= x <= hi], for
    integers [lo] and [hi]: with mantissa [m] and exponent [e <= 0] the
    value is [m * 2^e], so the bounds read [lo * 2^(-e) <= m <= hi * 2^(-e)]. *)
Definition between (lo hi : Z) (x : float) : Prop :=
  exists (m : positive) (e : Z),
    x = S754_finite false m e /\
    Zpos (digits2_pos m) = 53 /\
    -1074 <= e <= 0 /\
    lo * 2 ^ (- e) <= Zpos m <= hi * 2 ^ (- e).

(** ** Notions used by the properties of the running system *)

(** The system when [main] reaches the loop: the updater stands at line 11
    and the startup statements are done. *)
Definition booted (e : nat -> Z) : System :=
  mkSystem Line11 (exec startup (initial_world e)).

(** The total time passed to [time.sleep], in seconds. *)
Fixpoint seconds_slept (t : list Event) : Z :=
  match t with
  | [] => 0
  | EvSleep seconds :: rest => seconds + seconds_slept rest
  | _ :: rest => seconds_slept rest
  end.

(** Where the two counters stand with respect to each other: line 12 is
    reached after [REQUEST_COUNT.inc()] and before
    [RAM_TEST_METRIC_COUNT.inc()]. *)
Definition counters_in_step (s : System) : Prop :=
  counter_value (registry (world s)) REQUEST_COUNT
  = (counter_value (registry (world s)) RAM_TEST_METRIC_COUNT
     + match pc s with Line12 => 1 | _ => 0 end)%N.

(** The gauge still has its default or holds a value of the closed range. *)
Definition gauge_default_or_in_range (s : System) : Prop :=
  gauge_value (registry (world s)) TEMPERATURE = zero \/
  in_closed_range (gauge_value (registry (world s)) TEMPERATURE).


(** * Sanity checks on concrete inputs *)

Example of_int_20 : of_int 20 = S754_finite false 5629499534213120 (-48).
Proof. reflexivity. Qed.

Example of_int_35 : of_int 35 = S754_finite false 4925812092436480 (-47).
Proof. reflexivity. Qed.

Example uniform_at_zero : uniform 20 35 (random_of_bits 0) = of_int 20.
Proof. reflexivity. Qed.

Example uniform_at_half :
  uniform 20 35 (random_of_bits (2 ^ 52)) = S754_finite false 7740561859543040 (-48).
Proof. vm_compute. reflexivity. Qed.

Example uniform_at_top : uniform 20 35 (random_of_bits (2 ^ 53 - 1)) = of_int 35.
Proof. vm_compute. reflexivity. Qed.

(** * Binary64 rounding *)

Lemma digits2_pos_bounds (p : positive) :
  2 ^ (Zpos (digits2_pos p) - 1) <= Zpos p < 2 ^ Zpos (digits2_pos p).
Proof.
  induction p as [p IH | p IH |]; cbn [digits2_pos].
  - rewrite Pos2Z.inj_succ.
    replace (Z.succ (Zpos (digits2_pos p)) - 1) with (Z.succ (Zpos (digits2_pos p) - 1)) by lia.
    rewrite !Z.pow_succ_r by lia. lia.
  - rewrite Pos2Z.inj_succ.
    replace (Z.succ (Zpos (digits2_pos p)) - 1) with (Z.succ (Zpos (digits2_pos p) - 1)) by lia.
    rewrite !Z.pow_succ_r by lia. lia.
  - cbn. lia.
Qed.

Lemma pow2_pos (n : Z) : 0 <= n -> 0 < 2 ^ n.
Proof. intros. apply Z.pow_pos_nonneg; lia. Qed.

Lemma pow2_window_unique (z a b : Z) :
  1 <= a -> 1 <= b ->
  2 ^ (a - 1) <= z < 2 ^ a -> 2 ^ (b - 1) <= z < 2 ^ b -> a = b.
Proof.
  intros Ha Hb [La Ua] [Lb Ub].
  assert (a - 1 < b) by (apply (Z.pow_lt_mono_r_iff 2); lia).
  assert (b - 1 < a) by (apply (Z.pow_lt_mono_r_iff 2); lia).
  lia.
Qed.

Lemma Zdigits2_unique (z n : Z) :
  1 <= n -> 2 ^ (n - 1) <= z < 2 ^ n -> Zdigits2 z = n.
Proof.
  intros Hn Hz.
  assert (0 < z) by (pose proof (pow2_pos (n - 1)); lia).
  destruct z as [| p | p]; try lia.
  cbn [Zdigits2].
  apply (pow2_window_unique (Zpos p)); try lia.
  apply digits2_pos_bounds.
Qed.

Lemma shr_1_inv (a : shr_record) : 0 <= shr_m a -> shr_inv 1 a (shr_1 a).
Proof.
  destruct a as [m r s]; cbn [shr_m shr_r shr_s]; intros Hm.
  unfold shr_inv, shr_1; cbn [shr_m shr_r shr_s].
  change (2 ^ 1) with 2.
  destruct m as [| [p | p |] |]; try lia; cbn [shr_m shr_r shr_s].
  - split; [reflexivity | intros _ -> ->; auto].
  - split. { rewrite Pos2Z.inj_xI. apply Z.div_unique with 1; lia. }
    intros H. rewrite Pos2Z.inj_xI in H.
    replace (2 * Zpos p + 1) with (1 + Zpos p * 2) in H by lia.
    rewrite Z.mod_add in H by lia. discriminate.
  - split. { rewrite Pos2Z.inj_xO. apply Z.div_unique with 0; lia. }
    intros _ -> ->; auto.
  - split; [reflexivity |]. intros H; discriminate.
Qed.

Lemma shr_inv_trans (j k : Z) (a b c : shr_record) :
  0 <= j -> 0 <= k -> 0 <= shr_m a ->
  shr_inv j a b -> shr_inv k b c -> shr_inv (j + k) a c.
Proof.
  intros Hj Hk Ha [Hb1 Hb2] [Hc1 Hc2].
  pose proof (pow2_pos j Hj). pose proof (pow2_pos k Hk).
  split.
  - rewrite Hc1, Hb1, Z.pow_add_r by lia. rewrite Z.div_div by lia. reflexivity.
  - intros Hmod Hr Hs.
    rewrite Z.pow_add_r in Hmod by lia.
    rewrite Z.rem_mul_r in Hmod by lia.
    pose proof (Z.mod_pos_bound (shr_m a) (2 ^ j) ltac:(lia)).
    pose proof (Z.mod_pos_bound (shr_m a / 2 ^ j) (2 ^ k) ltac:(lia)).
    assert (shr_m a mod 2 ^ j = 0) by nia.
    assert ((shr_m a / 2 ^ j) mod 2 ^ k = 0) by nia.
    destruct Hb2 as [Hbr Hbs]; auto.
    apply Hc2; auto. rewrite Hb1. assumption.
Qed.

Lemma shr_inv_nonneg (k : Z) (a b : shr_record) :
  0 <= k -> 0 <= shr_m a -> shr_inv k a b -> 0 <= shr_m b.
Proof.
  intros Hk Ha [Hb _]. rewrite Hb. apply Z.div_pos; [lia | apply pow2_pos; lia].
Qed.

Lemma iter_shr_1_inv (p : positive) :
  forall a, 0 <= shr_m a -> shr_inv (Zpos p) a (iter_pos shr_1 p a).
Proof.
  induction p as [p IH | p IH |]; intros a Ha; cbn [iter_pos].
  - pose proof (shr_1_inv a Ha) as H1.
    pose proof (shr_inv_nonneg 1 _ _ ltac:(lia) Ha H1) as N1.
    pose proof (IH _ N1) as H2.
    pose proof (shr_inv_nonneg (Zpos p) _ _ ltac:(lia) N1 H2) as N2.
    pose proof (IH _ N2) as H3.
    replace (Zpos p~1) with (1 + Zpos p + Zpos p) by lia.
    eapply shr_inv_trans; try lia; [| exact H3].
    eapply shr_inv_trans; try lia; eassumption.
  - pose proof (IH _ Ha) as H2.
    pose proof (shr_inv_nonneg (Zpos p) _ _ ltac:(lia) Ha H2) as N2.
    pose proof (IH _ N2) as H3.
    replace (Zpos p~0) with (Zpos p + Zpos p) by lia.
    eapply shr_inv_trans; try lia; eassumption.
  - apply shr_1_inv; assumption.
Qed.

Lemma round_nearest_even_cases (q : Z) (r s : bool) :
  let m2 := round_nearest_even q (loc_of_shr_record (Build_shr_record q r s)) in
  (m2 = q \/ m2 = q + 1) /\ (r = false /\ s = false -> m2 = q).
Proof.
  destruct r, s; cbn; try destruct (Z.even q); split; auto; intros [? ?]; discriminate.
Qed.

Lemma fexp_normal (x : Z) : -1021 <= x -> fexp 53 1024 x = x - 53.
Proof. intros. unfold fexp, emin. lia. Qed.

Lemma binary_round_aux_normal (m : positive) (e : Z) :
  let d := Zpos (digits2_pos m) in
  53 <= d -> -1021 <= d + e <= 1023 ->
  exists (m' : positive) (e' m2 : Z),
    binary_round_aux 53 1024 false (Zpos m) e loc_Exact = S754_finite false m' e' /\
    Zpos (digits2_pos m') = 53 /\
    d + e - 53 <= e' <= d + e - 52 /\
    Zpos m' * 2 ^ (e' - e) = m2 * 2 ^ (d - 53) /\
    (m2 = Zpos m / 2 ^ (d - 53) \/ m2 = Zpos m / 2 ^ (d - 53) + 1) /\
    (Zpos m mod 2 ^ (d - 53) = 0 -> m2 = Zpos m / 2 ^ (d - 53)).
Proof.
  intros d Hd He.
  pose proof (digits2_pos_bounds m) as Hm. fold d in Hm.
  unfold binary_round_aux, shr_fexp at 1.
  cbn [Zdigits2]. fold d.
  rewrite fexp_normal by lia.
  replace (d + e - 53 - e) with (d - 53) by lia.
  destruct (d - 53) as [| p | p] eqn:Hsh; try lia.
  - (* the mantissa already has 53 digits *)
    cbn [shr shr_record_of_loc shr_m loc_of_shr_record round_nearest_even].
    unfold shr_fexp. cbn [Zdigits2]. fold d.
    rewrite fexp_normal by lia.
    replace (d + e - 53 - e) with 0 by lia.
    cbn [shr shr_record_of_loc shr_m].
    replace (e <=? 1024 - 53) with true by (symmetry; apply Z.leb_le; lia).
    exists m, e, (Zpos m).
    rewrite Z.sub_diag. change (2 ^ 0) with 1. rewrite Z.div_1_r.
    repeat split; try lia; auto.
  - (* [p] digits are shifted out *)
    cbn [shr shr_record_of_loc].
    pose proof (iter_shr_1_inv p (Build_shr_record (Zpos m) false false) ltac:(cbn; lia)) as [Hq Hex].
    destruct (iter_pos shr_1 p (Build_shr_record (Zpos m) false false)) as [q r s].
    cbn [shr_m shr_r shr_s] in Hq, Hex.
    assert (Hp : 0 < 2 ^ Zpos p) by (apply pow2_pos; lia).
    assert (Hdp : d = 53 + Zpos p) by lia.
    assert (Hq52 : 2 ^ 52 <= q < 2 ^ 53).
    { rewrite Hq. rewrite Hdp in Hm.
      replace (53 + Zpos p - 1) with (52 + Zpos p) in Hm by lia.
      rewrite !Z.pow_add_r in Hm by lia.
      split.
      - apply Z.div_le_lower_bound; lia.
      - apply Z.div_lt_upper_bound; lia. }
    pose proof (round_nearest_even_cases q r s) as [Hm2 Hm2ex].
    cbn [shr_m].
    set (m2 := round_nearest_even q (loc_of_shr_record (Build_shr_record q r s))) in *.
    assert (Hm2' : m2 < 2 ^ 53 \/ m2 = 2 ^ 53) by lia.
    assert (Hval : Zpos m mod 2 ^ Zpos p = 0 -> m2 = Zpos m / 2 ^ Zpos p).
    { intros H0. rewrite <- Hq. apply Hm2ex. apply Hex; auto. }
    destruct Hm2' as [Hlt | Heq].
    + assert (Hdig : Zdigits2 m2 = 53) by (apply Zdigits2_unique; lia).
      unfold shr_fexp. rewrite Hdig.
      rewrite fexp_normal by lia.
      replace (53 + (e + Zpos p) - 53 - (e + Zpos p)) with 0 by lia.
      cbn [shr shr_record_of_loc shr_m].
      destruct m2 as [| m' |] eqn:Em2; try lia.
      replace (e + Zpos p <=? 1024 - 53) with true by (symmetry; apply Z.leb_le; lia).
      exists m', (e + Zpos p), (Zpos m').
      cbn [Zdigits2] in Hdig.
      replace (e + Zpos p - e) with (Zpos p) by lia.
      rewrite <- Hq.
      repeat split; try lia; auto.
    + unfold shr_fexp. rewrite Heq.
      change (Zdigits2 (2 ^ 53)) with 54.
      rewrite fexp_normal by lia.
      replace (54 + (e + Zpos p) - 53 - (e + Zpos p)) with 1 by lia.
      cbn [shr shr_record_of_loc shr_m iter_pos].
      change (shr_m (shr_1 (Build_shr_record (2 ^ 53) false false))) with (Zpos (Z.to_pos (2 ^ 52))).
      replace (e + Zpos p + 1 <=? 1024 - 53) with true by (symmetry; apply Z.leb_le; lia).
      exists (Z.to_pos (2 ^ 52)), (e + Zpos p + 1), m2.
      replace (e + Zpos p + 1 - e) with (1 + Zpos p) by lia.
      rewrite Z.pow_add_r by lia. rewrite Heq, <- Hq.
      repeat split; try lia; auto.
Qed.

Lemma binary_round_aux_between (lo hi : Z) (m : positive) (e : Z) :
  0 <= lo -> hi < 2 ^ 52 ->
  53 <= Zpos (digits2_pos m) -> -1021 <= Zpos (digits2_pos m) + e ->
  lo * 2 ^ (- e) <= Zpos m <= hi * 2 ^ (- e) ->
  between lo hi (binary_round_aux 53 1024 false (Zpos m) e loc_Exact).
Proof.
  intros Hlo Hhi Hd Hmin [Hl Hu].
  pose proof (digits2_pos_bounds m) as Hm.
  set (d := Zpos (digits2_pos m)) in *.
  assert (He0 : e <= 0).
  { destruct (Z.leb_spec e 0) as [|Hpos]; [assumption | exfalso].
    rewrite Z.pow_neg_r in Hu by lia. lia. }
  assert (Hpe : 0 < 2 ^ (- e)) by (apply pow2_pos; lia).
  assert (Hde : d + e <= 52).
  { assert (2 ^ (d - 1) < 2 ^ (52 - e)).
    { replace (52 - e) with (52 + - e) by lia. rewrite Z.pow_add_r by lia. nia. }
    assert (d - 1 < 52 - e) by (apply (Z.pow_lt_mono_r_iff 2); lia).
    lia. }
  destruct (binary_round_aux_normal m e Hd ltac:(fold d; lia))
    as (m' & e' & m2 & Hres & Hdig & He' & Hval & Hm2 & Hex).
  fold d in He', Hval, Hm2, Hex.
  exists m', e'. split; [assumption |]. split; [assumption |]. split; [lia |].
  set (sh := d - 53) in *.
  set (t := - e - sh).
  assert (Hsh : 0 <= sh) by (unfold sh; lia).
  assert (Ht : 0 <= t) by (unfold t, sh; lia).
  assert (HP : 0 < 2 ^ sh) by (apply pow2_pos; lia).
  assert (HT : 0 < 2 ^ t) by (apply pow2_pos; lia).
  assert (HA : 0 < 2 ^ (e' - e)) by (apply pow2_pos; lia).
  assert (HB : 0 < 2 ^ (- e')) by (apply pow2_pos; lia).
  assert (Eq1 : 2 ^ (- e) = 2 ^ t * 2 ^ sh).
  { rewrite <- Z.pow_add_r by lia. f_equal. unfold t. lia. }
  assert (Eq2 : 2 ^ (- e) = 2 ^ (- e') * 2 ^ (e' - e)).
  { rewrite <- Z.pow_add_r by lia. f_equal. lia. }
  pose proof (Z.div_mod (Zpos m) (2 ^ sh) ltac:(lia)) as Hdm.
  pose proof (Z.mod_pos_bound (Zpos m) (2 ^ sh) HP) as Hmb.
  set (q := Zpos m / 2 ^ sh) in *.
  set (rm := Zpos m mod 2 ^ sh) in *.
  set (P := 2 ^ sh) in *. set (T := 2 ^ t) in *.
  set (A := 2 ^ (e' - e)) in *. set (B := 2 ^ (- e')) in *.
  rewrite Eq1 in Hl, Hu.
  assert (Hlow : lo * T <= m2).
  { assert (lo * T <= q) by nia. lia. }
  assert (Hupp : m2 <= hi * T).
  { destruct (Z.eq_dec rm 0) as [Hz | Hnz].
    - rewrite (Hex Hz). nia.
    - assert (q < hi * T) by nia. lia. }
  assert (Eq3 : T * P = B * A) by lia.
  split; nia.
Qed.

Lemma iter_xO_pow (m d : positive) :
  Zpos (Pos.iter xO m d) = Zpos m * 2 ^ Zpos d.
Proof.
  induction d as [| d IH] using Pos.peano_ind.
  - cbn [Pos.iter]. lia.
  - rewrite Pos.iter_succ, Pos2Z.inj_xO, IH, Pos2Z.inj_succ, Z.pow_succ_r by lia. lia.
Qed.

Lemma shl_align_value (m : positive) (e ez : Z) :
  ez <= e -> Zpos (fst (shl_align m e ez)) = Zpos m * 2 ^ (e - ez).
Proof.
  intros H. unfold shl_align.
  destruct (ez - e) as [| p | p] eqn:E; try lia; cbn [fst].
  - replace (e - ez) with 0 by lia. change (2 ^ 0) with 1. lia.
  - rewrite iter_xO_pow. f_equal. f_equal. lia.
Qed.

Lemma digits_from_bounds (m : positive) (n : Z) :
  1 <= n -> 2 ^ (n - 1) <= Zpos m < 2 ^ n -> Zpos (digits2_pos m) = n.
Proof. intros Hn H. exact (Zdigits2_unique (Zpos m) n Hn H). Qed.

Lemma binary_round_between (lo hi : Z) (m : positive) (e : Z) :
  0 <= lo -> hi < 2 ^ 52 ->
  -1021 <= Zpos (digits2_pos m) + e ->
  lo * 2 ^ (- e) <= Zpos m <= hi * 2 ^ (- e) ->
  between lo hi (binary_round 53 1024 false m e).
Proof.
  intros Hlo Hhi Hmin [Hl Hu].
  pose proof (digits2_pos_bounds m) as Hm.
  set (d := Zpos (digits2_pos m)) in *.
  assert (Hd1 : 1 <= d) by (unfold d; lia).
  assert (He0 : e <= 0).
  { destruct (Z.leb_spec e 0) as [|Hpos]; [assumption | exfalso].
    rewrite Z.pow_neg_r in Hu by lia. lia. }
  unfold binary_round. rewrite fexp_normal by lia.
  unfold shl_align. fold d.
  destruct (d + e - 53 - e) as [| p | p] eqn:E.
  - apply binary_round_aux_between; fold d; try lia.
  - apply binary_round_aux_between; fold d; try lia.
  - (* fewer than 53 digits: the mantissa is shifted left *)
    assert (Hp : Zpos p = 53 - d) by lia.
    assert (Hpp : 0 < 2 ^ Zpos p) by (apply pow2_pos; lia).
    assert (Hdig : Zpos (digits2_pos (Pos.iter xO m p)) = 53).
    { apply digits_from_bounds; [lia |]. rewrite iter_xO_pow.
      assert (E1 : 2 ^ (53 - 1) = 2 ^ (d - 1) * 2 ^ Zpos p).
      { rewrite <- Z.pow_add_r by lia. f_equal. lia. }
      assert (E2 : 2 ^ 53 = 2 ^ d * 2 ^ Zpos p).
      { rewrite <- Z.pow_add_r by lia. f_equal. lia. }
      rewrite E1, E2. nia. }
    apply binary_round_aux_between; try lia.
    rewrite iter_xO_pow.
    replace (- (d + e - 53)) with (- e + Zpos p) by lia.
    rewrite Z.pow_add_r by lia. nia.
Qed.

(** * The range of [random.uniform(20, 35)] *)

Lemma random_of_bits_cases (k : Z) :
  random_of_bits k = S754_zero false \/ between 0 1 (random_of_bits k).
Proof.
  unfold random_of_bits.
  pose proof (Z.mod_pos_bound k (2 ^ 53) ltac:(lia)) as Hk.
  destruct (k mod 2 ^ 53) as [| p | p] eqn:E; try lia.
  - left. reflexivity.
  - right. cbn [binary_normalize]. unfold prec, emax.
    apply binary_round_between; lia.
Qed.

Lemma of_int_15 : of_int 15 = S754_finite false 8444249301319680 (-49).
Proof. reflexivity. Qed.

Lemma mul_15_between (u : float) :
  between 0 1 u -> between 0 15 (mul (of_int 15) u).
Proof.
  intros (m & e & -> & Hdig & He & Hl & Hu).
  rewrite of_int_15. unfold mul, SFmul, prec, emax. cbn [xorb].
  pose proof (digits2_pos_bounds m) as Hm. rewrite Hdig in Hm.
  assert (Hpe : 0 < 2 ^ (- e)) by (apply pow2_pos; lia).
  pose proof (digits2_pos_bounds (8444249301319680 * m)) as Hd.
  set (d := Zpos (digits2_pos (8444249301319680 * m))) in *.
  rewrite Pos2Z.inj_mul in Hd.
  assert (Hd105 : 105 <= d).
  { assert (2 ^ 104 < 2 ^ d) by lia.
    assert (104 < d); [| lia]. apply (Z.pow_lt_mono_r_iff 2); lia. }
  apply binary_round_aux_between; fold d; try lia.
  rewrite Pos2Z.inj_mul.
  replace (- (-49 + e)) with (49 + - e) by lia.
  rewrite Z.pow_add_r by lia.
  change (Zpos 8444249301319680) with (15 * 2 ^ 49). nia.
Qed.

Lemma add_20_between (p : float) :
  between 0 15 p -> between 20 35 (add (of_int 20) p).
Proof.
  intros (m & e & -> & Hdig & He & Hl & Hu).
  rewrite of_int_20. unfold add, SFadd, prec, emax.
  cbn [cond_Zopp].
  set (ez := Z.min (-48) e).
  assert (Hez1 : ez <= -48) by (unfold ez; lia).
  assert (Hez2 : ez <= e) by (unfold ez; lia).
  pose proof (shl_align_value 5629499534213120 (-48) ez Hez1) as V1.
  pose proof (shl_align_value m e ez Hez2) as V2.
  set (a := fst (shl_align 5629499534213120 (-48) ez)) in *.
  set (b := fst (shl_align m e ez)) in *.
  change (Zpos a + Zpos b) with (Zpos (a + b)).
  cbn [binary_normalize].
  assert (Hpe : 0 < 2 ^ (- e)) by (apply pow2_pos; lia).
  assert (Hp1 : 0 < 2 ^ (-48 - ez)) by (apply pow2_pos; lia).
  assert (Hp2 : 0 < 2 ^ (e - ez)) by (apply pow2_pos; lia).
  assert (E1 : 2 ^ (- ez) = 2 ^ 48 * 2 ^ (-48 - ez)).
  { rewrite <- Z.pow_add_r by lia. f_equal. lia. }
  assert (E2 : 2 ^ (- ez) = 2 ^ (- e) * 2 ^ (e - ez)).
  { rewrite <- Z.pow_add_r by lia. f_equal. lia. }
  assert (Hsum : 20 * 2 ^ (- ez) <= Zpos (a + b) <= 35 * 2 ^ (- ez)).
  { rewrite Pos2Z.inj_add, V1, V2.
    change (Zpos 5629499534213120) with (20 * 2 ^ 48).
    split.
    - rewrite E1. nia.
    - assert (20 * 2 ^ 48 * 2 ^ (-48 - ez) = 20 * 2 ^ (- ez)) by (rewrite E1; lia).
      assert (Zpos m * 2 ^ (e - ez) <= 15 * 2 ^ (- ez)) by (rewrite E2; nia).
      lia. }
  apply binary_round_between; try lia.
  pose proof (digits2_pos_bounds (a + b)) as Hd.
  set (d := Zpos (digits2_pos (a + b))) in *.
  assert (4 - ez < d); [| lia].
  apply (Z.pow_lt_mono_r_iff 2); try lia.
  replace (4 - ez) with (4 + - ez) by lia. rewrite Z.pow_add_r by lia.
  change (2 ^ 4) with 16.
  assert (0 < 2 ^ (- ez)) by (apply pow2_pos; lia). lia.
Qed.

Lemma leb_of_le (a b : positive) (e : Z) :
  Zpos a <= Zpos b -> SFleb (S754_finite false a e) (S754_finite false b e) = true.
Proof.
  intros H. unfold SFleb, SFcompare. rewrite Z.compare_refl.
  change (Pos.compare_cont Eq a b) with (Zpos a ?= Zpos b).
  destruct (Z.compare_spec (Zpos a) (Zpos b)); try reflexivity. lia.
Qed.

Lemma leb_of_lt_exp (a b : positive) (e1 e2 : Z) :
  e1 < e2 -> SFleb (S754_finite false a e1) (S754_finite false b e2) = true.
Proof.
  intros H. unfold SFleb, SFcompare.
  apply Z.compare_lt_iff in H. rewrite H. reflexivity.
Qed.

Lemma between_20_35_closed (v : float) : between 20 35 v -> in_closed_range v.
Proof.
  intros (m & e & -> & Hdig & He & Hl & Hu).
  pose proof (digits2_pos_bounds m) as Hm. rewrite Hdig in Hm.
  change (2 ^ (53 - 1)) with 4503599627370496 in Hm.
  change (2 ^ 53) with 9007199254740992 in Hm.
  assert (Hpe : 0 < 2 ^ (- e)) by (apply pow2_pos; lia).
  assert (H1 : - e < 49).
  { apply (Z.pow_lt_mono_r_iff 2); [lia | lia |].
    change (2 ^ 49) with 562949953421312. lia. }
  assert (H2 : 46 < - e).
  { apply (Z.pow_lt_mono_r_iff 2); [lia | lia |].
    change (2 ^ 46) with 70368744177664. lia. }
  unfold in_closed_range. rewrite of_int_20, of_int_35. unfold leb.
  assert (Hc : e = -48 \/ e = -47) by lia.
  destruct Hc as [-> | ->].
  - change (2 ^ (- -48)) with 281474976710656 in *.
    split; [apply leb_of_le; lia | apply leb_of_lt_exp; lia].
  - change (2 ^ (- -47)) with 140737488355328 in *.
    split; [apply leb_of_lt_exp; lia | apply leb_of_le; lia].
Qed.

Theorem uniform_20_35_closed (k : Z) :
  in_closed_range (uniform 20 35 (random_of_bits k)).
Proof.
  unfold uniform. change (35 - 20) with 15.
  destruct (random_of_bits_cases k) as [-> | Hu].
  - split; reflexivity.
  - apply between_20_35_closed, add_20_between, mul_15_between, Hu.
Qed.

(** * The loop *)

Lemma exec_loop_body (w : World) :
  exec loop_body w =
  mkWorld
    (update_gauge TEMPERATURE
       (fun o => set o (uniform 20 35 (random_of_bits (entropy w (drawn w)))))
       (update_counter RAM_TEST_METRIC_COUNT inc
          (update_counter REQUEST_COUNT inc (registry w))))
    (entropy w) (S (drawn w)) (trace w ++ tick_events w).
Proof.
  unfold exec, loop_body, tick_events; cbn.
  rewrite <- !app_assoc. reflexivity.
Qed.

Lemma counter_after_loop_body (w : World) (c : CounterVar) :
  counter_value (registry (exec loop_body w)) c
  = (counter_value (registry w) c + 1)%N.
Proof. rewrite exec_loop_body. destruct c; reflexivity. Qed.

Lemma gauge_after_loop_body (w : World) :
  gauge_value (registry (exec loop_body w)) TEMPERATURE
  = uniform 20 35 (random_of_bits (entropy w (drawn w))).
Proof. rewrite exec_loop_body. reflexivity. Qed.

Lemma generate_metrics_S (n : nat) (w : World) :
  generate_metrics (S n) w = generate_metrics n (exec loop_body w).
Proof. reflexivity. Qed.

Lemma after_ticks_S_l (n : nat) (w : World) :
  after_ticks (S n) w = after_ticks n (exec loop_body w).
Proof. reflexivity. Qed.

Lemma after_ticks_S_r (n : nat) :
  forall w, after_ticks (S n) w = exec loop_body (after_ticks n w).
Proof.
  induction n as [| n IH]; intros w.
  - reflexivity.
  - rewrite after_ticks_S_l, IH. reflexivity.
Qed.

Lemma generate_metrics_running (n : nat) :
  forall w, generate_metrics n w = Running (after_ticks n w).
Proof.
  induction n as [| n IH]; intros w.
  - reflexivity.
  - rewrite generate_metrics_S, IH, after_ticks_S_l. reflexivity.
Qed.

Lemma counter_after_ticks (n : nat) (w : World) (c : CounterVar) :
  counter_value (registry (after_ticks n w)) c
  = (counter_value (registry w) c + N.of_nat n)%N.
Proof.
  induction n as [| n IH].
  - cbn. lia.
  - rewrite after_ticks_S_r, counter_after_loop_body, IH. lia.
Qed.

Lemma completed_iterations_app (t1 t2 : list Event) :
  completed_iterations (t1 ++ t2)
  = (completed_iterations t1 + completed_iterations t2)%nat.
Proof.
  induction t1 as [| e t1 IH]; [reflexivity |].
  destruct e; cbn; rewrite IH; reflexivity.
Qed.

Lemma stdout_app (t1 t2 : list Event) : stdout (t1 ++ t2) = stdout t1 ++ stdout t2.
Proof.
  induction t1 as [| e t1 IH]; [reflexivity |].
  destruct e; cbn; rewrite IH; reflexivity.
Qed.

Lemma stdout_loop_events (t : list Event) :
  forallb is_loop_event t = true -> stdout t = [].
Proof.
  induction t as [| e t IH]; [reflexivity |].
  destruct e; cbn; intros H; try discriminate; auto.
Qed.

Lemma trace_after_ticks (n : nat) :
  forall w, exists events,
    trace (after_ticks n w) = trace w ++ events /\
    forallb is_loop_event events = true /\
    completed_iterations events = n.
Proof.
  induction n as [| n IH]; intros w.
  - exists []. cbn. rewrite app_nil_r. auto.
  - destruct (IH (exec loop_body w)) as (events & Ht & Hl & Hc).
    exists (tick_events w ++ events).
    rewrite after_ticks_S_l, Ht, exec_loop_body. cbn [trace].
    rewrite <- app_assoc, forallb_app, completed_iterations_app, Hl, Hc.
    auto.
Qed.

(** * The updater and the endpoint *)

Lemma step_counter_mono (a : Action) (s : System) (c : CounterVar) :
  (counter_value (registry (world s)) c
   <= counter_value (registry (world (fst (step a s)))) c)%N.
Proof.
  destruct s as [p w], a; [| cbn; lia].
  destruct p, c; cbn; unfold counter_value; cbn; lia.
Qed.

Lemma run_cons (a : Action) (rest : list Action) (s : System) :
  run (a :: rest) s
  = (fst (run rest (fst (step a s))),
     snd (step a s) ++ snd (run rest (fst (step a s)))).
Proof.
  cbn [run]. destruct (step a s) as [s1 out1].
  cbn [fst snd]. destruct (run rest s1); reflexivity.
Qed.

Lemma run_scrapes (schedule : list Action) (s : System) :
  forallb is_scrape schedule = true ->
  run schedule s = (s, repeat (handle_request s) (List.length schedule)).
Proof.
  induction schedule as [| a rest IH]; [reflexivity |].
  destruct a; cbn [forallb is_scrape andb]; [discriminate |].
  intros H. rewrite run_cons. cbn [step fst snd]. rewrite (IH H). reflexivity.
Qed.

Lemma run_counter_mono (schedule : list Action) (c : CounterVar) :
  forall s,
    (counter_value (registry (world s)) c
     <= counter_value (registry (world (fst (run schedule s)))) c)%N.
Proof.
  induction schedule as [| a rest IH]; intros s.
  - cbn. lia.
  - rewrite run_cons. cbn [fst].
    pose proof (step_counter_mono a s c).
    pose proof (IH (fst (step a s))). lia.
Qed.


(** * Scenarios *)

(** A loop whose condition is false returns at once: [Returned] is a
    possible outcome of [while], only not of [generate_metrics]. *)
Example while_false_returns (w : World) :
  while (ret false) loop_body 5 w = Returned w.
Proof. reflexivity. Qed.

(** After exactly 3 iterations a request shows 3, 3 and the third value
    drawn; here the three draws are 0, 2^52 and 2^53 - 1, that is 0.0, 0.5
    and the largest value below 1.0. *)
Example three_ticks :
  data_lines
    (handle_request
       (mkSystem Line11
          (state_of
             (main 3 (initial_world
                        (fun i => match i with
                                  | O => 0
                                  | S O => 2 ^ 52
                                  | _ => 2 ^ 53 - 1
                                  end))))))
  = [("http_requests_total", Count 3);
     ("room_temperature_celsius", Reading (of_int 35));
     ("ram_test_metric_count", Count 3)].
Proof. vm_compute. reflexivity. Qed.

(** A step of the updater between two requests can change the answer. *)
Example update_between_requests :
  snd (run [Scrape; Update; Scrape] (mkSystem Line11 (initial_world (fun _ => 0))))
  = [generate_latest (registry (initial_world (fun _ => 0)));
     generate_latest
       (registry (exec (Counter_inc REQUEST_COUNT) (initial_world (fun _ => 0))))]
  /\ data_lines (generate_latest (registry (initial_world (fun _ => 0))))
     <> data_lines
          (generate_latest
             (registry (exec (Counter_inc REQUEST_COUNT) (initial_world (fun _ => 0))))).
Proof. split; [reflexivity | discriminate]. Qed.

(** * The claims *)

(** C1: after [n] completed iterations of the updater loop, as [main] runs
    it from the initial state, [REQUEST_COUNT] and [RAM_TEST_METRIC_COUNT]
    both equal [n]: both start at 0 and every iteration adds exactly 1 to
    each. *)
Theorem counters_equal_ticks (e : nat -> Z) (n : nat) :
  (forall c, counter_value (registry (initial_world e)) c = 0%N) /\
  (forall w c, counter_value (registry (exec loop_body w)) c
               = (counter_value (registry w) c + 1)%N) /\
  counter_value (registry (state_of (main n (initial_world e)))) REQUEST_COUNT
    = N.of_nat n /\
  counter_value (registry (state_of (main n (initial_world e)))) RAM_TEST_METRIC_COUNT
    = N.of_nat n.
Proof.
  split; [intros c; destruct c; reflexivity |].
  split; [intros w c; apply counter_after_loop_body |].
  unfold main. fold (after_ticks n (exec startup (initial_world e))).
  rewrite !counter_after_ticks. split; cbn; lia.
Qed.

(** C2, as the spec states it, fails: when the generator returns its
    largest value, (2^53 - 1) * 2^-53, the product 15 * u rounds to
    15 - 2^-49 and the sum 20 + (15 - 2^-49) rounds to 35.0, so the gauge is
    set to 35.0, which is not below 35.0. *)
Lemma gauge_reaches_35 :
  ~ in_half_open_range
      (gauge_value
         (registry (exec loop_body (initial_world (fun _ => 2 ^ 53 - 1))))
         TEMPERATURE).
Proof.
  rewrite gauge_after_loop_body.
  intros [_ H]. vm_compute in H. discriminate.
Qed.

(** C2, amended: the value [v] written to the gauge by an iteration
    satisfies 20.0 <= v <= 35.0, whatever the state the iteration starts in
    and whatever the generator returns. *)
Theorem gauge_in_closed_range (w : World) :
  in_closed_range (gauge_value (registry (exec loop_body w)) TEMPERATURE).
Proof. rewrite gauge_after_loop_body. apply uniform_20_35_closed. Qed.

(** C3: the payload served for a request has exactly three data lines, one
    per metric in registration order, and their values are the values the
    two counters and the gauge hold in the registry when the request is
    served. *)
Theorem exposition_has_three_data_lines (s : System) :
  let r := registry (world s) in
  data_lines (handle_request s)
  = [(c_name (counters r REQUEST_COUNT), Count (counter_value r REQUEST_COUNT));
     (g_name (gauges r TEMPERATURE), Reading (gauge_value r TEMPERATURE));
     (c_name (counters r RAM_TEST_METRIC_COUNT),
      Count (counter_value r RAM_TEST_METRIC_COUNT))]
  /\ List.length (data_lines (handle_request s)) = 3%nat.
Proof. split; reflexivity. Qed.

(** C4: no step of the program lowers a counter: along every schedule of
    updater steps and requests, from every state, each counter ends at
    least as high as it started; the same holds over any number of
    iterations of the loop, and the startup statements leave the counters
    as they are. *)
Theorem counters_never_decrease (schedule : list Action) (s : System)
  (n : nat) (c : CounterVar) :
  (counter_value (registry (world s)) c
   <= counter_value (registry (world (fst (run schedule s)))) c)%N
  /\ (counter_value (registry (world s)) c
      <= counter_value (registry (after_ticks n (world s))) c)%N
  /\ counter_value (registry (exec startup (world s))) c
     = counter_value (registry (world s)) c.
Proof.
  split; [apply run_counter_mono |].
  split; [rewrite counter_after_ticks; lia | reflexivity].
Qed.

(** C5: the loop never returns: whatever the fuel, [generate_metrics] is
    still running when the fuel is spent, it has then completed one
    iteration per unit of fuel, and after every [n] iterations it executes
    the body once more. *)
Theorem generate_metrics_never_returns (n : nat) (w : World) :
  generate_metrics n w = Running (after_ticks n w) /\
  (forall w', generate_metrics n w <> Returned w') /\
  after_ticks (S n) w = exec loop_body (after_ticks n w) /\
  completed_iterations (trace (after_ticks n w))
  = (completed_iterations (trace w) + n)%nat.
Proof.
  split; [apply generate_metrics_running |].
  split; [intros w'; rewrite generate_metrics_running; discriminate |].
  split; [apply after_ticks_S_r |].
  destruct (trace_after_ticks n w) as (events & Ht & _ & Hc).
  rewrite Ht, completed_iterations_app, Hc. reflexivity.
Qed.

(** C6: when the updater takes no step between two requests, every request
    from the first to the last is answered with the same payload, the
    exposition of the state they all see; the state may be any state, also
    one in the middle of an iteration. *)
Theorem requests_without_update_agree (s : System) (between_them : list Action) :
  forallb is_scrape between_them = true ->
  snd (run (Scrape :: between_them ++ [Scrape]) s)
  = repeat (handle_request s) (List.length between_them + 2)%nat.
Proof.
  intros H.
  rewrite run_scrapes.
  - cbn [snd List.length]. rewrite length_app. f_equal. cbn [List.length]. lia.
  - cbn [forallb is_scrape andb]. rewrite forallb_app, H. reflexivity.
Qed.

Lemma requests_without_update_agree_witness :
  forallb is_scrape [Scrape] = true /\
  snd (run (Scrape :: [Scrape] ++ [Scrape])
         (mkSystem Line12 (exec (Counter_inc REQUEST_COUNT) (initial_world (fun _ => 0)))))
  = repeat
      (handle_request
         (mkSystem Line12 (exec (Counter_inc REQUEST_COUNT) (initial_world (fun _ => 0)))))
      (List.length [Scrape] + 2)%nat.
Proof.
  split; [reflexivity |].
  apply (requests_without_update_agree
           (mkSystem Line12 (exec (Counter_inc REQUEST_COUNT) (initial_world (fun _ => 0))))
           [Scrape]).
  reflexivity.
Defined.

(** C7: before the first iteration, after the startup statements, a request
    shows [http_requests_total] 0, [room_temperature_celsius] 0 and
    [ram_test_metric_count] 0. *)
Theorem initial_exposition_is_zero (e : nat -> Z) :
  data_lines (handle_request (mkSystem Line11 (exec startup (initial_world e))))
  = [("http_requests_total", Count 0);
     ("room_temperature_celsius", Reading zero);
     ("ram_test_metric_count", Count 0)].
Proof. reflexivity. Qed.

(** C8: [main] first starts the endpoint on port 8080, then prints the line
    "Serving metrics on :8080/metrics", and every later effect is an effect
    of the loop (a counter increment, a gauge update or a sleep); the line
    is the only one written to standard output. *)
Theorem main_startup_order (e : nat -> Z) (n : nat) :
  trace (exec startup (initial_world e))
  = [EvListen 8080; EvPrint "Serving metrics on :8080/metrics"] /\
  exists loop_events,
    trace (state_of (main n (initial_world e)))
    = EvListen 8080 :: EvPrint "Serving metrics on :8080/metrics" :: loop_events /\
    forallb is_loop_event loop_events = true /\
    completed_iterations loop_events = n /\
    stdout (trace (state_of (main n (initial_world e))))
    = ["Serving metrics on :8080/metrics"].
Proof.
  split; [reflexivity |].
  unfold main. fold (after_ticks n (exec startup (initial_world e))).
  destruct (trace_after_ticks n (exec startup (initial_world e)))
    as (events & Ht & Hl & Hc).
  exists events. rewrite Ht.
  repeat split; auto.
  rewrite stdout_app, (stdout_loop_events events Hl). reflexivity.
Qed.

(** C9: after every completed iteration the two counters are equal: they
    are equal at the start and every iteration keeps their difference. *)
Theorem counters_stay_equal (e : nat -> Z) (n : nat) :
  counter_value (registry (state_of (main n (initial_world e)))) REQUEST_COUNT
  = counter_value (registry (state_of (main n (initial_world e)))) RAM_TEST_METRIC_COUNT
  /\ forall w,
       (counter_value (registry (exec loop_body w)) REQUEST_COUNT
        + counter_value (registry w) RAM_TEST_METRIC_COUNT
        = counter_value (registry (exec loop_body w)) RAM_TEST_METRIC_COUNT
          + counter_value (registry w) REQUEST_COUNT)%N.
Proof.
  split.
  - unfold main. fold (after_ticks n (exec startup (initial_world e))).
    rewrite !counter_after_ticks. reflexivity.
  - intros w. rewrite !counter_after_loop_body. lia.
Qed.

(** C10: the value an iteration writes to the gauge is a function of the
    random draw of that iteration alone: two runs that start with
    different registries and traces but the same generator write the same
    value. *)
Theorem gauge_depends_on_draw_only (r1 r2 : Registry) (t1 t2 : list Event)
  (e : nat -> Z) (d : nat) :
  gauge_value (registry (exec loop_body (mkWorld r1 e d t1))) TEMPERATURE
  = gauge_value (registry (exec loop_body (mkWorld r2 e d t2))) TEMPERATURE
  /\ gauge_value (registry (exec loop_body (mkWorld r1 e d t1))) TEMPERATURE
     = uniform 20 35 (random_of_bits (e d)).
Proof. rewrite !gauge_after_loop_body. split; reflexivity. Qed.

(** * Further properties of the running program *)

Lemma run_invariant (P : System -> Prop) :
  (forall a s, P s -> P (fst (step a s))) ->
  forall schedule s, P s -> P (fst (run schedule s)).
Proof.
  intros Hstep schedule.
  induction schedule as [| a rest IH]; intros s Hs.
  - exact Hs.
  - rewrite run_cons. cbn [fst]. apply IH, Hstep, Hs.
Qed.

Lemma drawn_after_ticks (n : nat) (w : World) :
  drawn (after_ticks n w) = (drawn w + n)%nat /\
  entropy (after_ticks n w) = entropy w.
Proof.
  induction n as [| n [IHd IHe]].
  - cbn. split; [lia | reflexivity].
  - rewrite after_ticks_S_r, exec_loop_body. cbn [drawn entropy].
    split; [lia | assumption].
Qed.

(** X1: every iteration makes exactly one draw and writes it to the gauge:
    after [n + 1] iterations the generator has been called [n + 1] more
    times and the gauge holds [uniform(20, 35)] of the last of these draws,
    the one numbered [drawn w + n]. *)
Theorem gauge_holds_last_draw (n : nat) (w : World) :
  drawn (after_ticks (S n) w) = (drawn w + S n)%nat /\
  gauge_value (registry (after_ticks (S n) w)) TEMPERATURE
  = uniform 20 35 (random_of_bits (entropy w (drawn w + n)%nat)).
Proof.
  split; [apply drawn_after_ticks |].
  rewrite after_ticks_S_r, gauge_after_loop_body.
  destruct (drawn_after_ticks n w) as [-> ->]. reflexivity.
Qed.

Lemma step_gauge (a : Action) (s : System) :
  gauge_default_or_in_range s -> gauge_default_or_in_range (fst (step a s)).
Proof.
  destruct s as [p w], a; [| exact (fun H => H)].
  destruct p; try exact (fun H => H).
  intros _. right. apply uniform_20_35_closed.
Qed.

(** X2: whenever a request is served, at any point of any schedule of
    updater statements and requests after startup, the gauge is either
    still 0.0 or between 20.0 and 35.0, both included. *)
Theorem gauge_always_default_or_in_range (e : nat -> Z) (schedule : list Action) :
  gauge_default_or_in_range (fst (run schedule (booted e))).
Proof.
  apply run_invariant; [exact step_gauge | left; reflexivity].
Qed.

Lemma step_counters_in_step (a : Action) (s : System) :
  counters_in_step s -> counters_in_step (fst (step a s)).
Proof.
  destruct s as [p w], a; [| exact (fun H => H)].
  unfold counters_in_step.
  destruct p; cbn; unfold counter_value; cbn; lia.
Qed.

(** X3: at any point of any schedule after startup, also in the middle of
    an iteration, [REQUEST_COUNT] is [RAM_TEST_METRIC_COUNT] or one more:
    one more exactly when the updater stands between the two increments,
    so a request served there shows two different counts. *)
Theorem counters_differ_by_at_most_one (e : nat -> Z) (schedule : list Action) :
  counters_in_step (fst (run schedule (booted e))).
Proof.
  apply run_invariant; [exact step_counters_in_step | reflexivity].
Qed.

Lemma seconds_slept_app (t1 t2 : list Event) :
  seconds_slept (t1 ++ t2) = seconds_slept t1 + seconds_slept t2.
Proof.
  induction t1 as [| ev t1 IH]; [reflexivity |].
  destruct ev; cbn [app seconds_slept]; rewrite IH; lia.
Qed.

Lemma seconds_slept_after_ticks (n : nat) (w : World) :
  seconds_slept (trace (after_ticks n w))
  = seconds_slept (trace w) + 2 * Z.of_nat n.
Proof.
  induction n as [| n IH].
  - cbn. lia.
  - rewrite after_ticks_S_r, exec_loop_body. cbn [trace].
    rewrite seconds_slept_app, IH. cbn [seconds_slept tick_events]. lia.
Qed.

(** X4: the loop sleeps 2 seconds per iteration and nothing else sleeps:
    when [main] has completed [n] iterations it has slept [2 * n] seconds
    in all, twice the value of each counter. *)
Theorem two_seconds_per_iteration (e : nat -> Z) (n : nat) (c : CounterVar) :
  seconds_slept (trace (state_of (main n (initial_world e)))) = 2 * Z.of_nat n /\
  seconds_slept (trace (state_of (main n (initial_world e))))
  = 2 * Z.of_N (counter_value (registry (state_of (main n (initial_world e)))) c).
Proof.
  unfold main. fold (after_ticks n (exec startup (initial_world e))).
  rewrite seconds_slept_after_ticks, counter_after_ticks.
  change (seconds_slept (trace (exec startup (initial_world e)))) with 0.
  replace (counter_value (registry (exec startup (initial_world e))) c) with 0%N
    by (destruct c; reflexivity).
  lia.
Qed.




(** X6: the [n + 1]-th iteration performs four effects, in the order of the
    source: it increments [REQUEST_COUNT], increments
    [RAM_TEST_METRIC_COUNT], sets [TEMPERATURE] to the value drawn and
    sleeps 2 seconds; it performs no other effect. *)
Theorem iteration_effects (n : nat) (w : World) :
  trace (after_ticks (S n) w)
  = trace (after_ticks n w)
    ++ [EvInc REQUEST_COUNT; EvInc RAM_TEST_METRIC_COUNT;
        EvSet TEMPERATURE
          (uniform 20 35 (random_of_bits (entropy w (drawn w + n)%nat)));
        EvSleep 2].
Proof.
  rewrite after_ticks_S_r, exec_loop_body. cbn [trace]. unfold tick_events.
  destruct (drawn_after_ticks n w) as [-> ->]. reflexivity.
Qed.

